(** * SetIcon (simulator/resources/icon_cmake.cpp)

    A shallow embedding of [SetIcon], the routine that looks for [icon.png]
    next to the executable and in two working-directory fallbacks, and hands
    the first existing location to [SetIconHelper].

    The routine is built on three collaborators that live outside the file:
    - [std::filesystem::path] ([parent_path] and [operator/]), modelled in
      [Module Fs] on POSIX pathnames, where the native string type is
      [std::string] (the brace initialiser of [possible_paths] converts a
      path to [std::string], which only exists on such platforms);
    - [std::filesystem::exists], the overload without [error_code]: it
      answers [true] or [false], or throws [filesystem_error] when the
      status of the path cannot be read (a directory of the path that may
      not be searched, a loop of symbolic links, a name that is too long).
      The world carries the answer for every pathname, [None] standing for
      the error; [SetIcon] has no handler, so the exception leaves it;
    - [LOG(...)] and [SetIconHelper], modelled as events appended to the
      trace of the world. *)

From Stdlib Require Import String Ascii List Bool Lia.
Import ListNotations.

Local Open Scope string_scope.
Local Open Scope list_scope.

(** ** Pathnames *)

Module Fs.

(** [std::filesystem::path] on a POSIX system: a wrapper around the native
    pathname.  Construction from a string and conversion back to a string
    are the constructor and the projection. *)
Record path : Type := Path { native : string }.

Definition preferred_separator : ascii := "/"%char.

Definition is_dir_sep (c : ascii) : bool := Ascii.eqb c preferred_separator.

Definition chars (p : path) : list ascii := list_ascii_of_string (native p).

Definition of_chars (l : list ascii) : path := Path (string_of_list_ascii l).

Fixpoint drop_while (f : ascii -> bool) (l : list ascii) : list ascii :=
  match l with
  | [] => []
  | c :: l' => if f c then drop_while f l' else l
  end.

Definition empty (p : path) : bool :=
  match native p with
  | EmptyString => true
  | String _ _ => false
  end.

(** There is no root-name on POSIX: the root directory is the leading
    separator, and a pathname is absolute exactly when it has one. *)
Definition has_root_directory (p : path) : bool :=
  match chars p with
  | c :: _ => is_dir_sep c
  | [] => false
  end.

Definition is_absolute (p : path) : bool := has_root_directory p.

(** The relative path is what follows the root directory and the
    separators after it: it is non-empty when some character of the
    pathname is not a separator. *)
Definition has_relative_path (p : path) : bool :=
  existsb (fun c => negb (is_dir_sep c)) (chars p).

(** The last element of the pathname is a non-empty filename: the
    pathname is non-empty and does not end in a separator. *)
Definition has_filename (p : path) : bool :=
  match rev (chars p) with
  | c :: _ => negb (is_dir_sep c)
  | [] => false
  end.

(** [path::parent_path()]: the pathname itself when it has no relative
    path; otherwise the pathname up to the end of the element before the
    last one, where the last element is the final filename (empty after a
    trailing separator) and the root directory counts as the single
    element ["/"]. *)
Definition parent_path (p : path) : path :=
  if negb (has_relative_path p) then p
  else
    let without_filename := drop_while (fun c => negb (is_dir_sep c)) (rev (chars p)) in
    match drop_while is_dir_sep without_filename with
    | [] => if has_root_directory p then Path "/" else Path ""
    | c :: l => of_chars (rev (c :: l))
    end.

(** [operator/=] on POSIX: an absolute right operand, or an empty left
    operand, gives the right operand; otherwise the right operand is
    appended, after a separator when the left operand ends in a
    filename. *)
Definition append (lhs rhs : path) : path :=
  if is_absolute rhs || empty lhs then rhs
  else if has_filename lhs then Path (native lhs ++ "/" ++ native rhs)
  else Path (native lhs ++ native rhs).

End Fs.

Declare Scope path_scope.
Delimit Scope path_scope with path.
Notation "p / q" := (Fs.append p q) : path_scope.

(** ** The world of the routine: filesystem, log sink, icon helper *)

(** The two [absl] severities the routine logs at. *)
Inductive LogSeverity : Type := INFO | WARNING.

(** What the routine does to the outside, in the order it does it.  The
    answer of a query is [Some b] when [exists] returns [b] and [None] when
    it throws. *)
Inductive Event : Type :=
| ExistsQuery (p : string) (answer : option bool) (* std::filesystem::exists(p) *)
| LogMessage (severity : LogSeverity) (message : string)  (* LOG(severity) << message *)
| HelperCall (icon_path : string).              (* SetIconHelper(icon_path) *)

(** The world holds, for every pathname, what [exists] does on it, and the
    events so far, oldest first. *)
Record World : Type := mkWorld {
  file_status : string -> option bool;
  trace : list Event
}.

Definition emit (e : Event) (w : World) : World :=
  mkWorld (file_status w) (trace w ++ [e]).

(** [std::filesystem::filesystem_error], with the path it is about. *)
Inductive Exception : Type :=
| filesystem_error (path1 : string).

(** A command returns a value or leaves by an exception. *)
Inductive Result (A : Type) : Type :=
| Returned (a : A)
| Thrown (e : Exception).

Arguments Returned {A} a.
Arguments Thrown {A} e.

(** Commands thread the world; an exception skips what follows. *)
Definition Cmd (A : Type) : Type := World -> Result A * World.

Definition ret {A : Type} (a : A) : Cmd A := fun w => (Returned a, w).

Definition bind {A B : Type} (c : Cmd A) (k : A -> Cmd B) : Cmd B :=
  fun w => match c w with
           | (Returned a, w') => k a w'
           | (Thrown e, w') => (Thrown e, w')
           end.

Notation "x <- c ;; k" := (bind c (fun x => k))
  (at level 61, c at next level, right associativity).
Notation "c ;; k" := (bind c (fun _ => k))
  (at level 61, right associativity).

Definition exec {A : Type} (c : Cmd A) (w : World) : World := snd (c w).

Definition outcome {A : Type} (c : Cmd A) (w : World) : Result A := fst (c w).

(** [std::filesystem::exists(p)]: the answer of the filesystem, or
    [filesystem_error] when there is none. *)
Definition fs_exists (p : string) : Cmd bool :=
  fun w => match file_status w p with
           | Some b => (Returned b, emit (ExistsQuery p (Some b)) w)
           | None => (Thrown (filesystem_error p), emit (ExistsQuery p None) w)
           end.

Definition LOG (severity : LogSeverity) (message : string) : Cmd unit :=
  fun w => (Returned tt, emit (LogMessage severity message) w).

Definition SetIconHelper (icon_path : string) : Cmd unit :=
  fun w => (Returned tt, emit (HelperCall icon_path) w).

(** ** SetIcon *)

(** [std::string::empty()]. *)
Definition string_empty (s : string) : bool :=
  match s with
  | EmptyString => true
  | String _ _ => false
  end.

(** The initialiser of [possible_paths]. *)
Definition possible_paths (argv0 : string) : list string :=
  [ Fs.native (Fs.parent_path (Fs.Path argv0) / Fs.Path "icon.png")%path;
    Fs.native (Fs.parent_path (Fs.Path argv0) / Fs.Path "resources" / Fs.Path "icon.png")%path;
    "resources/icon.png";
    "icon.png" ].

(** The range-for loop over [possible_paths]: [icon_path] keeps its value
    until a path exists, which is assigned to it and ends the loop. *)
Fixpoint probe_loop (paths : list string) (icon_path : string) : Cmd string :=
  match paths with
  | [] => ret icon_path
  | path :: rest =>
      found <- fs_exists path ;;
      if found then ret path
      else probe_loop rest icon_path
  end.

Definition not_found_message : string :=
  "Icon file not found in any of the expected locations".

Definition SetIcon (argv0 : string) : Cmd unit :=
  icon_path <- probe_loop (possible_paths argv0) "" ;;
  if string_empty icon_path then
    LOG WARNING not_found_message
  else
    LOG INFO ("Using icon from: " ++ icon_path) ;;
    SetIconHelper icon_path.

(** ** Observations of a trace *)

Definition diagnostics (t : list Event) : list (LogSeverity * string) :=
  flat_map (fun e => match e with
                     | LogMessage s m => [(s, m)]
                     | _ => []
                     end) t.

Definition helper_calls (t : list Event) : list string :=
  flat_map (fun e => match e with
                     | HelperCall p => [p]
                     | _ => []
                     end) t.

Definition queried_paths (t : list Event) : list string :=
  flat_map (fun e => match e with
                     | ExistsQuery p _ => [p]
                     | _ => []
                     end) t.

(** The events one call of [SetIcon] adds, on a filesystem [fs], and how
    the call ends. *)
Definition SetIcon_events (fs : string -> option bool) (argv0 : string) : list Event :=
  trace (exec (SetIcon argv0) (mkWorld fs [])).

Definition SetIcon_result (fs : string -> option bool) (argv0 : string) : Result unit :=
  outcome (SetIcon argv0) (mkWorld fs []).

(** The parent directory extracted from the hint, and the first candidate
    built on it. *)
Definition parentDir (argv0 : string) : Fs.path := Fs.parent_path (Fs.Path argv0).

Definition next_to_executable (argv0 : string) : string :=
  Fs.native (parentDir argv0 / Fs.Path "icon.png")%path.

(** The queries the loop makes over [paths]: one per path, up to and
    including the first that is not answered [false]. *)
Fixpoint probes (fs : string -> option bool) (paths : list string) : list Event :=
  match paths with
  | [] => []
  | path :: rest =>
      ExistsQuery path (fs path)
      :: match fs path with
         | Some false => probes fs rest
         | _ => []
         end
  end.

(** How the loop ends over [paths]: with the first path answered [true],
    with [icon_path] when all are answered [false], or with the exception
    of the first query that has no answer. *)
Fixpoint loop_result (fs : string -> option bool) (paths : list string)
         (icon_path : string) : Result string :=
  match paths with
  | [] => Returned icon_path
  | path :: rest =>
      match fs path with
      | Some true => Returned path
      | Some false => loop_result fs rest icon_path
      | None => Thrown (filesystem_error path)
      end
  end.

(** What follows the loop, for the value it leaves in [icon_path]. *)
Definition report (icon_path : string) : list Event :=
  if string_empty icon_path then [LogMessage WARNING not_found_message]
  else [LogMessage INFO ("Using icon from: " ++ icon_path); HelperCall icon_path].

(** What follows the loop, for the way it ends. *)
Definition after_loop (r : Result string) : list Event :=
  match r with
  | Returned icon_path => report icon_path
  | Thrown _ => []
  end.

(** How [SetIcon] ends, for the way its loop ends: both branches after
    the loop return. *)
Definition result_after (r : Result string) : Result unit :=
  match r with
  | Returned _ => Returned tt
  | Thrown e => Thrown e
  end.

(** How the loop of [SetIcon] ends: the value it leaves in [icon_path]
    (which starts empty), or its exception. *)
Definition chosen (fs : string -> option bool) (argv0 : string) : Result string :=
  outcome (probe_loop (possible_paths argv0) "") (mkWorld fs []).

(** The text a relative name is appended to, for a directory [d]: nothing
    for the empty path, [d] itself when it ends in a separator, and [d]
    with a separator otherwise. *)
Definition dir_prefix (d : Fs.path) : string :=
  if Fs.empty d then ""
  else if Fs.has_filename d then Fs.native d ++ "/"
  else Fs.native d.

(** A filesystem in which exactly the listed pathnames exist and every
    query is answered. *)
Definition fs_of (present : list string) : string -> option bool :=
  fun p => Some (existsb (String.eqb p) present).

(** A filesystem in which the status of the pathnames of [unreadable]
    cannot be read, and exactly the pathnames of [present] exist among the
    others. *)
Definition fs_with_errors (unreadable present : list string) : string -> option bool :=
  fun p => if existsb (String.eqb p) unreadable then None
           else Some (existsb (String.eqb p) present).

(** [l1] is an initial segment of [l2]. *)
Definition is_prefix {A : Type} (l1 l2 : list A) : Prop :=
  exists rest, l2 = l1 ++ rest.

(** A string without a directory separator, and a string of directory
    separators only. *)
Definition no_separator (s : string) : bool :=
  forallb (fun c => negb (Fs.is_dir_sep c)) (list_ascii_of_string s).

Definition all_separators (s : string) : bool :=
  forallb Fs.is_dir_sep (list_ascii_of_string s).

(** ** Strings and pathnames *)

Section StringFacts.

Local Open Scope string_scope.

Lemma string_app_assoc (a b c : string) : (a ++ b) ++ c = a ++ (b ++ c).
Proof.
  induction a as [|ch a IH]; simpl; [reflexivity|].
  now rewrite IH.
Qed.

Lemma chars_app (a b : string) :
  list_ascii_of_string (a ++ b)
  = (list_ascii_of_string a ++ list_ascii_of_string b)%list.
Proof.
  induction a as [|ch a IH]; simpl; [reflexivity|].
  now rewrite IH.
Qed.

Lemma string_empty_true (s : string) : string_empty s = true <-> s = "".
Proof.
  destruct s; simpl; split; intros H; try reflexivity; discriminate H.
Qed.

Lemma string_empty_app_r (a b : string) :
  string_empty b = false -> string_empty (a ++ b) = false.
Proof.
  destruct a; simpl; auto.
Qed.

End StringFacts.

Section PathFacts.

Import Fs.
Local Open Scope string_scope.

(** A name that starts with a letter is not absolute. *)
Lemma append_relative (d : path) (name : string) :
  is_absolute (Path name) = false ->
  native (d / Path name)%path = dir_prefix d ++ name.
Proof.
  intros Hrel. unfold append, dir_prefix. rewrite Hrel. simpl.
  destruct (empty d); [reflexivity|].
  destruct (has_filename d); simpl; [|reflexivity].
  now rewrite string_app_assoc.
Qed.

Lemma has_filename_app (a b : string) :
  has_filename (Path b) = true -> has_filename (Path (a ++ b)) = true.
Proof.
  unfold has_filename, chars. simpl. rewrite chars_app, rev_app_distr.
  destruct (rev (list_ascii_of_string b)); [discriminate|]. simpl. auto.
Qed.

Lemma empty_app_r (a b : string) :
  string_empty b = false -> empty (Path (a ++ b)) = false.
Proof.
  intros H. unfold empty. simpl.
  pose proof (string_empty_app_r a b H) as E.
  destruct (a ++ b); [discriminate E|reflexivity].
Qed.

Lemma path_eta (d : path) : Path (native d) = d.
Proof. now destruct d. Qed.

(** The first two candidates, as strings. *)
Lemma first_candidate (d : path) :
  native (d / Path "icon.png")%path = dir_prefix d ++ "icon.png".
Proof. now apply append_relative. Qed.

Lemma second_candidate (d : path) :
  native (d / Path "resources" / Path "icon.png")%path
  = dir_prefix d ++ "resources/icon.png".
Proof.
  rewrite append_relative by reflexivity.
  assert (E : (d / Path "resources")%path = Path (dir_prefix d ++ "resources")).
  { rewrite <- (append_relative d "resources") by reflexivity.
    now rewrite path_eta. }
  rewrite E. unfold dir_prefix at 1.
  rewrite empty_app_r by reflexivity.
  rewrite has_filename_app by reflexivity.
  simpl. now rewrite !string_app_assoc.
Qed.

Lemma drop_while_head (f : ascii -> bool) (l : list ascii) (c : ascii) (l' : list ascii) :
  drop_while f l = c :: l' -> f c = false.
Proof.
  induction l as [|a l IH]; simpl; [discriminate|].
  destruct (f a) eqn:E; [exact IH|].
  intros [= -> _]. exact E.
Qed.

(** A parent path is empty, or consists of separators only (the root
    directory), or ends in a filename: only in the last case does
    [operator/] put a separator after it. *)
Lemma parent_path_shape (p : path) :
  native (parent_path p) = ""
  \/ has_relative_path (parent_path p) = false
  \/ has_filename (parent_path p) = true.
Proof.
  unfold parent_path.
  destruct (has_relative_path p) eqn:Hrel; simpl.
  - destruct (drop_while is_dir_sep _) as [|c l] eqn:E.
    + destruct (has_root_directory p); [right; left; reflexivity | left; reflexivity].
    + right; right.
      unfold has_filename, chars, of_chars.
      change (native (Path ?x)) with x.
      rewrite list_ascii_of_string_of_list_ascii.
      change (rev l ++ [c])%list with (rev (c :: l)).
      rewrite rev_involutive.
      now rewrite (drop_while_head _ _ _ _ E).
  - right; left. exact Hrel.
Qed.

(** The model on sample pathnames: parents, and the first candidate built
    on each. *)
Example parent_path_samples :
  map (fun s => native (parent_path (Path s)))
      [ ""; "/"; "//"; "myprog"; "/myprog"; "//myprog"; "a/b"; "a//b"; "a/b/";
        "a/b//"; "/a/"; "./myprog"; "../x"; "/opt/app/bin/myprog"; "."; "//a//b" ]
  = [ ""; "/"; "//"; ""; "/"; "/"; "a"; "a"; "a/b";
      "a/b"; "/a"; "."; ".."; "/opt/app/bin"; ""; "//a" ].
Proof. reflexivity. Qed.

Example append_samples :
  map (fun s => native (parent_path (Path s) / Path "icon.png")%path)
      [ ""; "/"; "//"; "myprog"; "/myprog"; "a/b/"; "./myprog";
        "/opt/app/bin/myprog" ]
  = [ "icon.png"; "/icon.png"; "//icon.png"; "icon.png"; "/icon.png";
      "a/b/icon.png"; "./icon.png"; "/opt/app/bin/icon.png" ].
Proof. reflexivity. Qed.

End PathFacts.

(** ** Running the routine *)

Section Execution.

Variable fs : string -> option bool.

(** The loop, from any world: how it ends, and the queries it adds to the
    trace. *)
Lemma probe_loop_run (paths : list string) (icon_path : string) (t : list Event) :
  probe_loop paths icon_path (mkWorld fs t)
  = (loop_result fs paths icon_path, mkWorld fs (t ++ probes fs paths)).
Proof.
  revert t. induction paths as [|path rest IH]; intros t; simpl.
  - unfold ret. now rewrite app_nil_r.
  - unfold bind, fs_exists, emit. simpl.
    destruct (fs path) as [[|]|] eqn:E.
    + reflexivity.
    + rewrite IH. now rewrite <- app_assoc.
    + reflexivity.
Qed.

Lemma chosen_loop (argv0 : string) :
  chosen fs argv0 = loop_result fs (possible_paths argv0) "".
Proof. unfold chosen, outcome. now rewrite probe_loop_run. Qed.

(** One call, from any world. *)
Lemma SetIcon_run (argv0 : string) (t : list Event) :
  SetIcon argv0 (mkWorld fs t)
  = (result_after (chosen fs argv0),
     mkWorld fs (t ++ probes fs (possible_paths argv0)
                   ++ after_loop (chosen fs argv0))).
Proof.
  unfold SetIcon, bind. rewrite probe_loop_run, chosen_loop.
  destruct (loop_result fs (possible_paths argv0) "") as [icon_path|e]; simpl.
  - unfold report.
    destruct (string_empty icon_path); unfold LOG, SetIconHelper, bind, emit; simpl;
      now rewrite <- !app_assoc.
  - now rewrite app_nil_r.
Qed.

Lemma SetIcon_events_eq (argv0 : string) :
  SetIcon_events fs argv0
  = probes fs (possible_paths argv0) ++ after_loop (chosen fs argv0).
Proof. unfold SetIcon_events, exec. now rewrite SetIcon_run. Qed.

Lemma SetIcon_result_eq (argv0 : string) :
  SetIcon_result fs argv0 = result_after (chosen fs argv0).
Proof. unfold SetIcon_result, outcome. now rewrite SetIcon_run. Qed.

(** The queries of the loop are queries only, on an initial segment of
    the list. *)
Lemma diagnostics_probes (paths : list string) :
  diagnostics (probes fs paths) = [].
Proof.
  induction paths as [|p rest IH]; simpl; [reflexivity|].
  destruct (fs p) as [[|]|]; [reflexivity | exact IH | reflexivity].
Qed.

Lemma helper_calls_probes (paths : list string) :
  helper_calls (probes fs paths) = [].
Proof.
  induction paths as [|p rest IH]; simpl; [reflexivity|].
  destruct (fs p) as [[|]|]; [reflexivity | exact IH | reflexivity].
Qed.

Lemma queried_probes_cons (p : string) (rest : list string) :
  queried_paths (probes fs (p :: rest))
  = p :: match fs p with
         | Some false => queried_paths (probes fs rest)
         | _ => []
         end.
Proof. simpl. now destruct (fs p) as [[|]|]. Qed.

Lemma queried_probes_prefix (paths : list string) :
  is_prefix (queried_paths (probes fs paths)) paths.
Proof.
  induction paths as [|p rest [tl IH]].
  - now exists [].
  - rewrite queried_probes_cons. destruct (fs p) as [[|]|].
    + now exists rest.
    + exists tl. simpl. now rewrite <- IH.
    + now exists rest.
Qed.

Lemma queried_probes_none (paths : list string) :
  (forall p, In p paths -> fs p = Some false) ->
  queried_paths (probes fs paths) = paths.
Proof.
  induction paths as [|p rest IH]; intros H; [reflexivity|].
  rewrite queried_probes_cons, (H p (or_introl eq_refl)).
  f_equal. apply IH. intros q Hq. apply H. now right.
Qed.

Lemma probes_sound (paths : list string) (e : Event) :
  In e (probes fs paths) ->
  exists p, e = ExistsQuery p (fs p) /\ In p paths.
Proof.
  induction paths as [|p rest IH]; simpl; [tauto|].
  intros [<- | H].
  - exists p. auto.
  - destruct (fs p) as [[|]|]; try destruct H.
    destruct (IH H) as (q & -> & Hq). exists q. auto.
Qed.

(** The three ways the loop ends: all answered [false]; or the list is
    [before], [p], [after] with [before] answered [false], and [p] is
    answered [true] or has no answer. *)
Lemma loop_cases (paths : list string) (icon_path : string) :
  (Forall (fun q => fs q = Some false) paths
   /\ loop_result fs paths icon_path = Returned icon_path
   /\ probes fs paths = map (fun q => ExistsQuery q (Some false)) paths)
  \/ (exists before p after,
        paths = before ++ p :: after
        /\ Forall (fun q => fs q = Some false) before
        /\ probes fs paths
           = map (fun q => ExistsQuery q (Some false)) before
             ++ [ExistsQuery p (fs p)]
        /\ ((fs p = Some true /\ loop_result fs paths icon_path = Returned p)
            \/ (fs p = None
                /\ loop_result fs paths icon_path = Thrown (filesystem_error p)))).
Proof.
  induction paths as [|q rest IH]; simpl.
  - left. repeat split. constructor.
  - destruct (fs q) as [[|]|] eqn:Hq.
    + right. exists [], q, rest. rewrite Hq.
      repeat split; [constructor | now left].
    + destruct IH as [(Hall & Hr & Hp) | (before & p & after & -> & Hb & Hp & Hc)].
      * left. rewrite Hr, Hp. repeat split. now constructor.
      * right. exists (q :: before), p, after. rewrite Hp.
        repeat split; [now constructor | exact Hc].
    + right. exists [], q, rest. rewrite Hq.
      repeat split; [constructor | now right].
Qed.

Lemma diagnostics_report (icon_path : string) :
  diagnostics (report icon_path)
  = if string_empty icon_path then [(WARNING, not_found_message)]
    else [(INFO, "Using icon from: " ++ icon_path)%string].
Proof. unfold report. now destruct (string_empty icon_path). Qed.

Lemma helper_calls_report (icon_path : string) :
  helper_calls (report icon_path)
  = if string_empty icon_path then [] else [icon_path].
Proof. unfold report. now destruct (string_empty icon_path). Qed.

Lemma queried_after_loop (r : Result string) :
  queried_paths (after_loop r) = [].
Proof.
  destruct r as [icon_path|e]; [|reflexivity].
  simpl. unfold report. now destruct (string_empty icon_path).
Qed.

Lemma diagnostics_SetIcon (argv0 : string) :
  diagnostics (SetIcon_events fs argv0)
  = diagnostics (after_loop (chosen fs argv0)).
Proof.
  rewrite SetIcon_events_eq. unfold diagnostics at 1.
  rewrite flat_map_app. fold (diagnostics (probes fs (possible_paths argv0))).
  now rewrite diagnostics_probes.
Qed.

Lemma helper_calls_SetIcon (argv0 : string) :
  helper_calls (SetIcon_events fs argv0)
  = helper_calls (after_loop (chosen fs argv0)).
Proof.
  rewrite SetIcon_events_eq. unfold helper_calls at 1.
  rewrite flat_map_app. fold (helper_calls (probes fs (possible_paths argv0))).
  now rewrite helper_calls_probes.
Qed.

Lemma queried_SetIcon (argv0 : string) :
  queried_paths (SetIcon_events fs argv0)
  = queried_paths (probes fs (possible_paths argv0)).
Proof.
  rewrite SetIcon_events_eq. unfold queried_paths at 1.
  rewrite flat_map_app. fold (queried_paths (after_loop (chosen fs argv0))).
  rewrite queried_after_loop. now rewrite app_nil_r.
Qed.

End Execution.

(** Every candidate is a non-empty string. *)
Lemma candidates_nonempty (argv0 p : string) :
  In p (possible_paths argv0) -> string_empty p = false.
Proof.
  unfold possible_paths. rewrite first_candidate, second_candidate.
  intros [<- | [<- | [<- | [<- | []]]]];
    try reflexivity; now apply string_empty_app_r.
Qed.

(** The three ways a call ends. *)
Lemma SetIcon_outcome (fs : string -> option bool) (argv0 : string) :
  (Forall (fun q => fs q = Some false) (possible_paths argv0)
   /\ chosen fs argv0 = Returned ""%string
   /\ SetIcon_result fs argv0 = Returned tt
   /\ SetIcon_events fs argv0
      = map (fun q => ExistsQuery q (Some false)) (possible_paths argv0)
        ++ [LogMessage WARNING not_found_message])
  \/ (exists before p after,
        possible_paths argv0 = before ++ p :: after
        /\ Forall (fun q => fs q = Some false) before
        /\ fs p = Some true
        /\ string_empty p = false
        /\ chosen fs argv0 = Returned p
        /\ SetIcon_result fs argv0 = Returned tt
        /\ SetIcon_events fs argv0
           = map (fun q => ExistsQuery q (Some false)) before
             ++ [ ExistsQuery p (Some true);
                  LogMessage INFO ("Using icon from: " ++ p);
                  HelperCall p ])
  \/ (exists before p after,
        possible_paths argv0 = before ++ p :: after
        /\ Forall (fun q => fs q = Some false) before
        /\ fs p = None
        /\ chosen fs argv0 = Thrown (filesystem_error p)
        /\ SetIcon_result fs argv0 = Thrown (filesystem_error p)
        /\ SetIcon_events fs argv0
           = map (fun q => ExistsQuery q (Some false)) before
             ++ [ExistsQuery p None]).
Proof.
  rewrite SetIcon_result_eq, SetIcon_events_eq, chosen_loop.
  destruct (loop_cases fs (possible_paths argv0) ""%string)
    as [(Hall & Hr & Hp)
       | (before & p & after & Hl & Hb & Hp & [[Hfs Hr] | [Hfs Hr]])];
    rewrite Hr, Hp.
  - left. now repeat split.
  - right; left. exists before, p, after.
    assert (Hne : string_empty p = false).
    { apply (candidates_nonempty argv0). rewrite Hl.
      apply in_or_app. right. now left. }
    rewrite Hfs. simpl. unfold report. rewrite Hne.
    repeat split; try assumption. now rewrite <- app_assoc.
  - right; right. exists before, p, after.
    rewrite Hfs. simpl. rewrite app_nil_r. now repeat split.
Qed.

(** The answers matter on the candidates only. *)
Lemma probes_ext (fs fs' : string -> option bool) (paths : list string) :
  (forall p, In p paths -> fs p = fs' p) ->
  probes fs paths = probes fs' paths
  /\ forall icon_path, loop_result fs paths icon_path = loop_result fs' paths icon_path.
Proof.
  induction paths as [|p rest IH]; intros H; simpl; [now split|].
  rewrite <- (H p (or_introl eq_refl)).
  destruct IH as [IH1 IH2]; [intros q Hq; apply H; now right|].
  split.
  - now rewrite IH1.
  - intros icon_path. now rewrite IH2.
Qed.

Lemma SetIcon_ext (fs fs' : string -> option bool) (argv0 : string) :
  (forall p, In p (possible_paths argv0) -> fs p = fs' p) ->
  SetIcon_events fs argv0 = SetIcon_events fs' argv0
  /\ SetIcon_result fs argv0 = SetIcon_result fs' argv0.
Proof.
  intros H. destruct (probes_ext fs fs' _ H) as [E1 E2].
  rewrite !SetIcon_events_eq, !SetIcon_result_eq, !chosen_loop.
  now rewrite E1, E2.
Qed.

Lemma SetIcon_exec (argv0 : string) (w : World) :
  SetIcon argv0 w
  = (SetIcon_result (file_status w) argv0,
     mkWorld (file_status w)
             (trace w ++ SetIcon_events (file_status w) argv0)).
Proof.
  destruct w as [fs t]. simpl.
  now rewrite SetIcon_run, SetIcon_events_eq, SetIcon_result_eq.
Qed.

(** When the first candidate is answered [true], the loop stops at it. *)
Lemma first_hit (fs : string -> option bool) (argv0 : string) :
  fs (next_to_executable argv0) = Some true ->
  chosen fs argv0 = Returned (next_to_executable argv0)
  /\ SetIcon_result fs argv0 = Returned tt
  /\ SetIcon_events fs argv0
     = [ ExistsQuery (next_to_executable argv0) (Some true);
         LogMessage INFO ("Using icon from: " ++ next_to_executable argv0);
         HelperCall (next_to_executable argv0) ].
Proof.
  intros H.
  assert (Hne : string_empty (next_to_executable argv0) = false).
  { apply (candidates_nonempty argv0). now left. }
  rewrite SetIcon_result_eq, SetIcon_events_eq, chosen_loop.
  unfold possible_paths. fold (parentDir argv0). fold (next_to_executable argv0).
  simpl. rewrite H. simpl. unfold report. now rewrite Hne.
Qed.

(** After a hit: one INFO line and one call of the helper. *)
Lemma after_hit (fs : string -> option bool) (argv0 p : string) :
  chosen fs argv0 = Returned p ->
  string_empty p = false ->
  diagnostics (SetIcon_events fs argv0) = [(INFO, ("Using icon from: " ++ p)%string)]
  /\ helper_calls (SetIcon_events fs argv0) = [p].
Proof.
  intros Hc Hne.
  rewrite diagnostics_SetIcon, helper_calls_SetIcon, Hc. simpl.
  rewrite diagnostics_report, helper_calls_report, Hne. now split.
Qed.


(** ** The candidate list *)

(** The candidates as strings: the fixed names after the directory
    prefix. *)
Lemma candidates_as_strings (argv0 : string) :
  possible_paths argv0
  = [ (dir_prefix (parentDir argv0) ++ "icon.png")%string;
      (dir_prefix (parentDir argv0) ++ "resources/icon.png")%string;
      "resources/icon.png"%string;
      "icon.png"%string ]
  /\ length (possible_paths argv0) = 4.
Proof.
  split; [|reflexivity].
  unfold possible_paths. fold (parentDir argv0).
  now rewrite first_candidate, second_candidate.
Qed.

(** C1: the candidate list is exactly the four paths parentDir/icon.png,
    parentDir/resources/icon.png, "resources/icon.png" and "icon.png", in
    this order, where "/" is the append operator of paths.  As strings, the
    first two are the fixed names after the directory prefix; and these
    four paths, in this order, are what [SetIcon] queries on a filesystem
    where every query is answered [false]. *)
Theorem C1_candidate_list (argv0 : string) :
  possible_paths argv0
  = [ Fs.native (parentDir argv0 / Fs.Path "icon.png")%path;
      Fs.native (parentDir argv0 / Fs.Path "resources" / Fs.Path "icon.png")%path;
      "resources/icon.png"%string;
      "icon.png"%string ]
  /\ possible_paths argv0
     = [ (dir_prefix (parentDir argv0) ++ "icon.png")%string;
         (dir_prefix (parentDir argv0) ++ "resources/icon.png")%string;
         "resources/icon.png"%string;
         "icon.png"%string ]
  /\ length (possible_paths argv0) = 4
  /\ queried_paths (SetIcon_events (fun _ => Some false) argv0)
     = possible_paths argv0.
Proof.
  split; [reflexivity|]. split; [|split; [reflexivity|]].
  - apply candidates_as_strings.
  - rewrite queried_SetIcon. now apply queried_probes_none.
Qed.

(** ** First match wins *)

(** C2: for a hint whose parent directory is not empty, if the query of
    parentDir/icon.png is answered [true], [SetIcon] stops at it, logs it
    at INFO, calls [SetIconHelper] with it and returns, whatever the
    filesystem does on the other paths. *)
Theorem C2_next_to_executable_wins (fs : string -> option bool) (argv0 : string) :
  Fs.empty (parentDir argv0) = false ->
  fs (Fs.native (parentDir argv0 / Fs.Path "icon.png")%path) = Some true ->
  chosen fs argv0
  = Returned (Fs.native (parentDir argv0 / Fs.Path "icon.png")%path)
  /\ helper_calls (SetIcon_events fs argv0)
     = [ Fs.native (parentDir argv0 / Fs.Path "icon.png")%path ]
  /\ SetIcon_events fs argv0
     = [ ExistsQuery (Fs.native (parentDir argv0 / Fs.Path "icon.png")%path)
                     (Some true);
         LogMessage INFO
           ("Using icon from: "
            ++ Fs.native (parentDir argv0 / Fs.Path "icon.png")%path);
         HelperCall (Fs.native (parentDir argv0 / Fs.Path "icon.png")%path) ]
  /\ SetIcon_result fs argv0 = Returned tt.
Proof.
  intros _ H. fold (next_to_executable argv0) in *.
  destruct (first_hit fs argv0 H) as (Hc & Hr & He).
  split; [exact Hc|]. split; [now rewrite He|]. split; [exact He | exact Hr].
Qed.

Lemma C2_witness :
  Fs.empty (parentDir "/opt/app/bin/myprog") = false
  /\ helper_calls
       (SetIcon_events
          (fs_with_errors ["/opt/app/bin/resources/icon.png"%string]
             ["/opt/app/bin/icon.png"; "resources/icon.png"; "icon.png"]%string)
          "/opt/app/bin/myprog")
     = ["/opt/app/bin/icon.png"%string].
Proof.
  split; [reflexivity|].
  apply (C2_next_to_executable_wins
           (fs_with_errors ["/opt/app/bin/resources/icon.png"%string]
              ["/opt/app/bin/icon.png"; "resources/icon.png"; "icon.png"]%string)
           "/opt/app/bin/myprog"); reflexivity.
Defined.

(** ** Nothing found *)

(** C3, as amended: if the query of each of the four candidates is
    answered [false], [SetIcon] returns (from any world), does not call
    [SetIconHelper], and logs exactly one diagnostic, at WARNING. *)
Theorem C3_none_found (fs : string -> option bool) (argv0 : string) (t : list Event) :
  (forall p, In p (possible_paths argv0) -> fs p = Some false) ->
  SetIcon argv0 (mkWorld fs t)
  = (Returned tt, mkWorld fs (t ++ SetIcon_events fs argv0))
  /\ helper_calls (SetIcon_events fs argv0) = []
  /\ diagnostics (SetIcon_events fs argv0) = [(WARNING, not_found_message)]
  /\ SetIcon_events fs argv0
     = map (fun p => ExistsQuery p (Some false)) (possible_paths argv0)
       ++ [LogMessage WARNING not_found_message].
Proof.
  intros H.
  assert (E : SetIcon_result fs argv0 = Returned tt
              /\ SetIcon_events fs argv0
                 = map (fun p => ExistsQuery p (Some false)) (possible_paths argv0)
                   ++ [LogMessage WARNING not_found_message]).
  { destruct (SetIcon_outcome fs argv0)
      as [(_ & _ & Hr & He)
         | [(before & p & after & Hl & _ & Hp & _)
           | (before & p & after & Hl & _ & Hp & _)]].
    - now split.
    - rewrite H in Hp; [discriminate Hp|].
      rewrite Hl. apply in_or_app. right. now left.
    - rewrite H in Hp; [discriminate Hp|].
      rewrite Hl. apply in_or_app. right. now left. }
  destruct E as [Hr He].
  split.
  - rewrite (SetIcon_exec argv0 (mkWorld fs t)). simpl. now rewrite Hr.
  - rewrite He. unfold helper_calls, diagnostics.
    rewrite !flat_map_app. unfold possible_paths. simpl. repeat split.
Qed.

Lemma C3_witness :
  (forall p, In p (possible_paths "/opt/app/bin/myprog") -> fs_of [] p = Some false)
  /\ helper_calls (SetIcon_events (fs_of []) "/opt/app/bin/myprog") = []
  /\ diagnostics (SetIcon_events (fs_of []) "/opt/app/bin/myprog")
     = [(WARNING, not_found_message)].
Proof.
  split; [reflexivity|].
  destruct (C3_none_found (fs_of []) "/opt/app/bin/myprog" [] (fun _ _ => eq_refl))
    as (_ & Hh & Hd & _).
  split; [exact Hh | exact Hd].
Defined.

(** C3, as stated, fails: for the hint loop/prog, where loop is a symbolic
    link to itself, none of the four candidates exists, yet the first
    query has no answer: [SetIcon] leaves by [filesystem_error] and logs
    nothing. *)
Lemma C3_counterexample :
  (forall p, In p (possible_paths "loop/prog") ->
             fs_with_errors ["loop/icon.png"; "loop/resources/icon.png"]%string [] p
             <> Some true)
  /\ SetIcon_result
       (fs_with_errors ["loop/icon.png"; "loop/resources/icon.png"]%string [])
       "loop/prog"
     = Thrown (filesystem_error "loop/icon.png")
  /\ diagnostics
       (SetIcon_events
          (fs_with_errors ["loop/icon.png"; "loop/resources/icon.png"]%string [])
          "loop/prog")
     = [].
Proof.
  split; [|split; reflexivity].
  intros p [<- | [<- | [<- | [<- | []]]]]; discriminate.
Qed.

(** ** Exactly one candidate *)




(** ** The working-directory fallback *)




(** ** Determinism *)

(** C6: from two worlds whose filesystems agree, a call with the same hint
    adds the same events (the same diagnostics and the same calls of
    [SetIconHelper]) and ends the same way; in particular a second call
    right after the first repeats what the first added. *)
Theorem C6_deterministic (argv0 : string) (w w' : World) :
  (forall p, file_status w p = file_status w' p) ->
  trace (exec (SetIcon argv0) w)
  = trace w ++ SetIcon_events (file_status w) argv0
  /\ trace (exec (SetIcon argv0) w')
     = trace w' ++ SetIcon_events (file_status w) argv0
  /\ trace (exec (SetIcon argv0) (exec (SetIcon argv0) w))
     = (trace w ++ SetIcon_events (file_status w) argv0)
       ++ SetIcon_events (file_status w) argv0
  /\ diagnostics (SetIcon_events (file_status w') argv0)
     = diagnostics (SetIcon_events (file_status w) argv0)
  /\ helper_calls (SetIcon_events (file_status w') argv0)
     = helper_calls (SetIcon_events (file_status w) argv0)
  /\ outcome (SetIcon argv0) w' = outcome (SetIcon argv0) w
  /\ outcome (SetIcon argv0) (exec (SetIcon argv0) w) = outcome (SetIcon argv0) w.
Proof.
  intros H.
  destruct (SetIcon_ext (file_status w') (file_status w) argv0) as [E R].
  { intros p _. symmetry. apply H. }
  unfold exec, outcome. repeat (rewrite SetIcon_exec; simpl).
  rewrite E, R. repeat split.
Qed.

Lemma C6_witness :
  (forall p, file_status (mkWorld (fs_of ["icon.png"%string]) []) p
             = file_status (mkWorld (fs_of ["icon.png"%string])
                              [HelperCall "old.png"]) p)
  /\ trace (exec (SetIcon "myprog")
              (exec (SetIcon "myprog") (mkWorld (fs_of ["icon.png"%string]) [])))
     = ([] ++ SetIcon_events (fs_of ["icon.png"%string]) "myprog")
       ++ SetIcon_events (fs_of ["icon.png"%string]) "myprog".
Proof.
  split; [reflexivity|].
  apply (C6_deterministic "myprog" (mkWorld (fs_of ["icon.png"%string]) [])
           (mkWorld (fs_of ["icon.png"%string]) [HelperCall "old.png"])
           (fun _ => eq_refl)).
Defined.

(** ** Frame *)

(** C7: a call leaves the filesystem as it was; what it adds to the trace
    is queries of existence on an initial segment of the candidate list (at
    most four), each answered by the filesystem, and otherwise only
    diagnostics and the call of [SetIconHelper]. *)
Theorem C7_filesystem_frame (argv0 : string) (w : World) :
  file_status (exec (SetIcon argv0) w) = file_status w
  /\ trace (exec (SetIcon argv0) w)
     = trace w ++ SetIcon_events (file_status w) argv0
  /\ is_prefix (queried_paths (SetIcon_events (file_status w) argv0))
               (possible_paths argv0)
  /\ length (queried_paths (SetIcon_events (file_status w) argv0)) <= 4
  /\ Forall (fun e => match e with
                      | ExistsQuery p r =>
                          In p (possible_paths argv0) /\ r = file_status w p
                      | LogMessage _ _ => True
                      | HelperCall _ => True
                      end)
            (SetIcon_events (file_status w) argv0).
Proof.
  unfold exec. rewrite SetIcon_exec. simpl.
  split; [reflexivity|]. split; [reflexivity|].
  assert (P : is_prefix (queried_paths (SetIcon_events (file_status w) argv0))
                        (possible_paths argv0)).
  { rewrite queried_SetIcon. apply queried_probes_prefix. }
  split; [exact P|]. split.
  - destruct P as [rest P].
    apply (f_equal (@length string)) in P. rewrite length_app in P.
    simpl in P. lia.
  - rewrite SetIcon_events_eq. apply Forall_app. split.
    + apply Forall_forall. intros e He.
      destruct (probes_sound _ _ _ He) as (p & -> & Hp). auto.
    + destruct (chosen (file_status w) argv0) as [icon_path|e]; simpl;
        [|constructor].
      unfold report. destruct (string_empty _); repeat constructor.
Qed.

(** ** The examples of the specification *)



(** ** Hints without a directory *)

(** C9: when the parent directory of the hint is empty, the candidate list
    is icon.png, resources/icon.png, resources/icon.png, icon.png: the
    first two entries are the two fallbacks in the reverse of the order
    they have as third and fourth entry, and icon.png is queried, and
    chosen, before resources/icon.png. *)
Theorem C9_bare_name_order (fs : string -> option bool) (argv0 : string) :
  Fs.empty (parentDir argv0) = true ->
  possible_paths argv0
  = ["icon.png"; "resources/icon.png"; "resources/icon.png"; "icon.png"]%string
  /\ chosen fs argv0
     = match fs "icon.png"%string with
       | Some true => Returned "icon.png"%string
       | Some false =>
           match fs "resources/icon.png"%string with
           | Some true => Returned "resources/icon.png"%string
           | Some false => Returned ""%string
           | None => Thrown (filesystem_error "resources/icon.png")
           end
       | None => Thrown (filesystem_error "icon.png")
       end
  /\ queried_paths (SetIcon_events fs argv0)
     = match fs "icon.png"%string with
       | Some false =>
           match fs "resources/icon.png"%string with
           | Some false =>
               ["icon.png"; "resources/icon.png"; "resources/icon.png"; "icon.png"]%string
           | _ => ["icon.png"; "resources/icon.png"]%string
           end
       | _ => ["icon.png"%string]
       end
  /\ helper_calls (SetIcon_events fs argv0)
     = match fs "icon.png"%string with
       | Some true => ["icon.png"%string]
       | Some false =>
           match fs "resources/icon.png"%string with
           | Some true => ["resources/icon.png"%string]
           | _ => []
           end
       | None => []
       end.
Proof.
  intros He.
  assert (Hd : dir_prefix (parentDir argv0) = ""%string).
  { unfold dir_prefix. now rewrite He. }
  assert (Hl : possible_paths argv0
               = ["icon.png"; "resources/icon.png"; "resources/icon.png";
                  "icon.png"]%string).
  { unfold possible_paths. fold (parentDir argv0).
    now rewrite first_candidate, second_candidate, Hd. }
  split; [exact Hl|].
  rewrite queried_SetIcon, helper_calls_SetIcon, chosen_loop, Hl. simpl.
  destruct (fs "icon.png"%string) as [[|]|] eqn:E1; simpl.
  - repeat split.
  - destruct (fs "resources/icon.png"%string) as [[|]|] eqn:E2; simpl;
      repeat split.
  - repeat split.
Qed.

Lemma C9_witness :
  Fs.empty (parentDir "myprog") = true
  /\ possible_paths "myprog"
     = ["icon.png"; "resources/icon.png"; "resources/icon.png"; "icon.png"]%string
  /\ helper_calls
       (SetIcon_events (fs_of ["resources/icon.png"; "icon.png"]%string) "myprog")
     = ["icon.png"%string].
Proof.
  split; [reflexivity|].
  destruct (C9_bare_name_order (fs_of ["resources/icon.png"; "icon.png"]%string)
              "myprog" eq_refl) as (Hl & _ & _ & Hh).
  split; [exact Hl | exact Hh].
Defined.

(** ** The empty-string sentinel *)

(** C10: every candidate is a non-empty string that ends in icon.png; the
    loop ends with [icon_path] empty if and only if every candidate is
    answered [false], and when the loop ends with a value, that value is
    empty if and only if no candidate exists; and every path
    [SetIconHelper] is called with is non-empty, is one of the candidates,
    exists, and was answered so by a query of the call. *)
Theorem C10_sentinel_sound (fs : string -> option bool) (argv0 : string) :
  Forall (fun p => string_empty p = false
                   /\ exists d, p = (d ++ "icon.png")%string)
         (possible_paths argv0)
  /\ (chosen fs argv0 = Returned ""%string
      <-> forall p, In p (possible_paths argv0) -> fs p = Some false)
  /\ (forall icon_path,
        chosen fs argv0 = Returned icon_path ->
        (string_empty icon_path = true
         <-> forall p, In p (possible_paths argv0) -> fs p <> Some true))
  /\ Forall (fun p => string_empty p = false
                      /\ In p (possible_paths argv0)
                      /\ fs p = Some true
                      /\ In (ExistsQuery p (Some true)) (SetIcon_events fs argv0))
            (helper_calls (SetIcon_events fs argv0)).
Proof.
  split; [|split; [|split]].
  - apply Forall_forall. intros p Hp.
    split; [now apply (candidates_nonempty argv0)|].
    destruct (candidates_as_strings argv0) as [E _]. rewrite E in Hp.
    destruct Hp as [<- | [<- | [<- | [<- | []]]]].
    + now exists (dir_prefix (parentDir argv0)).
    + exists (dir_prefix (parentDir argv0) ++ "resources/")%string.
      now rewrite string_app_assoc.
    + now exists "resources/"%string.
    + now exists ""%string.
  - destruct (SetIcon_outcome fs argv0)
      as [(Hall & Hc & _)
         | [(before & q & after & Hl & _ & Hq & Hne & Hc & _)
           | (before & q & after & Hl & _ & Hq & Hc & _)]];
      rewrite Hc.
    + split; [|reflexivity]. intros _. now apply Forall_forall.
    + split.
      * intros [= ->]. discriminate Hne.
      * intros H. rewrite H in Hq; [discriminate Hq|].
        rewrite Hl. apply in_or_app. right. now left.
    + split; [discriminate|].
      intros H. rewrite H in Hq; [discriminate Hq|].
      rewrite Hl. apply in_or_app. right. now left.
  - intros icon_path Hi.
    destruct (SetIcon_outcome fs argv0)
      as [(Hall & Hc & _)
         | [(before & q & after & Hl & _ & Hq & Hne & Hc & _)
           | (before & q & after & Hl & _ & Hq & Hc & _)]];
      rewrite Hc in Hi; [| |discriminate Hi]; injection Hi as <-.
    + split; [|reflexivity]. intros _ p Hp.
      rewrite Forall_forall in Hall. rewrite (Hall p Hp). discriminate.
    + rewrite Hne. split; [discriminate|].
      intros H. exfalso. apply (H q); [|exact Hq].
      rewrite Hl. apply in_or_app. right. now left.
  - destruct (SetIcon_outcome fs argv0)
      as [(_ & Hc & _)
         | [(before & q & after & Hl & _ & Hq & Hne & Hc & _ & He)
           | (before & q & after & _ & _ & _ & Hc & _)]].
    + rewrite helper_calls_SetIcon, Hc. constructor.
    + destruct (after_hit fs argv0 q Hc Hne) as [_ ->].
      constructor; [|constructor].
      repeat split; try assumption.
      * rewrite Hl. apply in_or_app. right. now left.
      * rewrite He. apply in_or_app. right. now left.
    + rewrite helper_calls_SetIcon, Hc. constructor.
Qed.
(** * Further properties of the routine *)

(** ** Lists of characters *)

Section DropWhile.

Import Fs.

Variable f : ascii -> bool.

Lemma drop_while_split (l : list ascii) :
  exists pre, l = pre ++ drop_while f l /\ forallb f pre = true.
Proof.
  induction l as [|c l (pre & E & H)]; simpl.
  - now exists [].
  - destruct (f c) eqn:Hc.
    + exists (c :: pre). simpl. rewrite Hc, H. now rewrite <- E.
    + now exists [].
Qed.

Lemma drop_while_app_all (a b : list ascii) :
  forallb f a = true -> drop_while f (a ++ b) = drop_while f b.
Proof.
  induction a as [|c a IH]; simpl; [reflexivity|].
  destruct (f c); simpl; [exact IH | discriminate].
Qed.

Lemma drop_while_stop (l : list ascii) :
  match l with c :: _ => f c = false | [] => True end ->
  drop_while f l = l.
Proof.
  destruct l as [|c l]; simpl; [reflexivity|]. now intros ->.
Qed.

Lemma forallb_rev (l : list ascii) : forallb f (rev l) = forallb f l.
Proof.
  induction l as [|c l IH]; simpl; [reflexivity|].
  rewrite forallb_app, IH. simpl. rewrite andb_true_r. apply andb_comm.
Qed.

End DropWhile.

Section MoreStringFacts.

Local Open Scope string_scope.

Lemma string_of_chars_app (a b : list ascii) :
  string_of_list_ascii (a ++ b)%list
  = string_of_list_ascii a ++ string_of_list_ascii b.
Proof.
  induction a as [|c a IH]; simpl; [reflexivity|]. now rewrite IH.
Qed.

Lemma prefix_app (a b : string) : prefix a (a ++ b) = true.
Proof.
  induction a as [|c a IH]; simpl.
  - now destruct b.
  - destruct (ascii_dec c c); [exact IH | congruence].
Qed.

Lemma string_empty_chars (s : string) :
  string_empty s = match list_ascii_of_string s with [] => true | _ => false end.
Proof. now destruct s. Qed.

End MoreStringFacts.

(** ** The parent directory of a hint *)

Section ParentFacts.

Import Fs.
Local Open Scope string_scope.

Let nonsep : ascii -> bool := fun c => negb (is_dir_sep c).

(** The reversed pathname is the final filename, the separators before it
    and the rest; the rest is empty or ends in a filename, and is all that
    [parent_path] keeps. *)
Lemma parent_path_decompose (p : path) :
  exists n s d : list ascii,
    rev (chars p) = (n ++ s ++ d)%list
    /\ forallb nonsep n = true
    /\ forallb is_dir_sep s = true
    /\ match d with c :: _ => is_dir_sep c = false | [] => True end
    /\ (s = [] -> d = [])
    /\ drop_while is_dir_sep (drop_while nonsep (rev (chars p))) = d.
Proof.
  destruct (drop_while_split nonsep (rev (chars p))) as (n & En & Hn).
  destruct (drop_while_split is_dir_sep (drop_while nonsep (rev (chars p))))
    as (s & Es & Hs).
  exists n, s, (drop_while is_dir_sep (drop_while nonsep (rev (chars p)))).
  split; [now rewrite <- Es|].
  split; [exact Hn|]. split; [exact Hs|].
  split; [|split; [|reflexivity]].
  - destruct (drop_while is_dir_sep _) as [|c l] eqn:E; [exact I|].
    exact (drop_while_head _ _ _ _ E).
  - intros ->. simpl in Es.
    destruct (drop_while nonsep (rev (chars p))) as [|c l] eqn:E;
      [reflexivity|].
    pose proof (drop_while_head _ _ _ _ E) as Hc. unfold nonsep in Hc.
    pose proof (drop_while_head _ _ _ _ (eq_sym Es)) as Hc'.
    rewrite Hc' in Hc. discriminate Hc.
Qed.

Lemma has_filename_rev (d : string) :
  has_filename (Path d) = true ->
  exists c l, rev (list_ascii_of_string d) = c :: l /\ is_dir_sep c = false.
Proof.
  unfold has_filename, chars. simpl.
  destruct (rev (list_ascii_of_string d)) as [|c l]; [discriminate|].
  intros H. exists c, l. split; [reflexivity|].
  now destruct (is_dir_sep c).
Qed.

Lemma has_filename_relative (d : string) (rest : list ascii) :
  has_filename (Path d) = true ->
  existsb nonsep (list_ascii_of_string d ++ rest) = true.
Proof.
  intros H. destruct (has_filename_rev d H) as (c & l & E & Hc).
  apply existsb_exists. exists c. split.
  - apply in_or_app. left. apply in_rev. rewrite E. now left.
  - unfold nonsep. now rewrite Hc.
Qed.

Lemma has_filename_nonempty (d : string) :
  has_filename (Path d) = true -> empty (Path d) = false.
Proof.
  destruct d; [discriminate | reflexivity].
Qed.

(** The parent of directory, separators, name is the directory. *)
Lemma parent_of_directory_hint (d seps name : string) :
  has_filename (Path d) = true ->
  all_separators seps = true ->
  string_empty seps = false ->
  no_separator name = true ->
  parent_path (Path (d ++ seps ++ name)) = Path d.
Proof.
  intros Hd Hs Hne Hn.
  unfold parent_path, has_relative_path, chars. simpl native.
  rewrite !chars_app.
  fold nonsep. rewrite (has_filename_relative d _ Hd). simpl negb. cbv iota.
  rewrite !rev_app_distr, <- app_assoc.
  rewrite drop_while_app_all by (rewrite forallb_rev; exact Hn).
  assert (Hstop : drop_while nonsep
                    (rev (list_ascii_of_string seps) ++ rev (list_ascii_of_string d))
                  = (rev (list_ascii_of_string seps) ++ rev (list_ascii_of_string d))%list).
  { apply drop_while_stop.
    assert (Hall : forallb is_dir_sep (rev (list_ascii_of_string seps)) = true)
      by (rewrite forallb_rev; exact Hs).
    rewrite string_empty_chars in Hne.
    destruct (list_ascii_of_string seps) as [|a l] eqn:E; [discriminate Hne|].
    destruct (rev (a :: l)) as [|c r] eqn:Er.
    - apply (f_equal (@length ascii)) in Er. rewrite length_rev in Er.
      discriminate Er.
    - simpl in *. apply andb_true_iff in Hall. destruct Hall as [Hc _].
      unfold nonsep. now rewrite Hc. }
  rewrite Hstop.
  rewrite drop_while_app_all by (rewrite forallb_rev; exact Hs).
  destruct (has_filename_rev d Hd) as (c & l & E & Hc).
  rewrite drop_while_stop by (rewrite E; exact Hc).
  rewrite E. unfold of_chars. rewrite <- E, rev_involutive.
  now rewrite string_of_list_ascii_of_string.
Qed.

End ParentFacts.

Section ParentShape.

Import Fs.
Local Open Scope string_scope.

Let nonsep : ascii -> bool := fun c => negb (is_dir_sep c).

Lemma drop_while_all (f : ascii -> bool) (l : list ascii) :
  forallb f l = true -> drop_while f l = [].
Proof.
  intros H. rewrite <- (app_nil_r l). now rewrite drop_while_app_all.
Qed.

Lemma rev_nonempty (a : ascii) (l : list ascii) :
  exists c r, rev (a :: l) = c :: r.
Proof.
  destruct (rev (a :: l)) as [|c r] eqn:E.
  - apply (f_equal (@length ascii)) in E. rewrite length_rev in E.
    discriminate E.
  - now exists c, r.
Qed.

(** The parent of separators, name is the root directory. *)
Lemma parent_of_root_hint (seps name : string) :
  all_separators seps = true ->
  string_empty seps = false ->
  no_separator name = true ->
  string_empty name = false ->
  parent_path (Path (seps ++ name)) = Path "/".
Proof.
  intros Hs Hse Hn Hne.
  rewrite string_empty_chars in Hse, Hne.
  unfold all_separators in Hs. unfold no_separator in Hn. fold nonsep in Hn.
  unfold parent_path, has_relative_path, has_root_directory, chars.
  simpl native. rewrite chars_app.
  destruct (list_ascii_of_string seps) as [|a ls] eqn:Es; [discriminate Hse|].
  destruct (list_ascii_of_string name) as [|b ln] eqn:En; [discriminate Hne|].
  fold nonsep.
  assert (Hrel : existsb nonsep ((a :: ls) ++ b :: ln) = true).
  { apply existsb_exists. exists b. split.
    - apply in_or_app. right. now left.
    - simpl in Hn. now apply andb_true_iff in Hn. }
  rewrite Hrel. simpl negb. cbv iota.
  rewrite rev_app_distr.
  rewrite drop_while_app_all by (rewrite forallb_rev; exact Hn).
  destruct (rev_nonempty a ls) as (c & r & Er).
  assert (Hall : forallb is_dir_sep (rev (a :: ls)) = true)
    by (rewrite forallb_rev; exact Hs).
  rewrite (drop_while_stop nonsep (rev (a :: ls))).
  - rewrite (drop_while_all _ _ Hall).
    simpl in Hs. apply andb_true_iff in Hs. destruct Hs as [Ha _].
    simpl. now rewrite Ha.
  - rewrite Er in *. simpl in Hall. apply andb_true_iff in Hall.
    destruct Hall as [Hc _]. unfold nonsep. now rewrite Hc.
Qed.

Lemma of_chars_rev_nonempty (c : ascii) (l : list ascii) :
  empty (of_chars (rev (c :: l))) = false.
Proof.
  destruct (rev_nonempty c l) as (a & r & E). now rewrite E.
Qed.

(** The parent is empty exactly for a hint without separator. *)
Lemma parent_empty_no_separator (s : string) :
  empty (parent_path (Path s)) = no_separator s.
Proof.
  destruct (parent_path_decompose (Path s)) as (n & sp & d & ER & Hn & Hs & Hd & Hsd & Ed).
  change (forallb nonsep n = true) in Hn.
  unfold no_separator. fold nonsep.
  unfold parent_path. rewrite Ed.
  destruct (has_relative_path (Path s)) eqn:Hrel; simpl negb; cbv iota.
  - assert (Hl : forallb nonsep (list_ascii_of_string s)
                 = forallb nonsep (n ++ sp ++ d)).
    { rewrite <- ER. unfold chars. simpl native. now rewrite forallb_rev. }
    destruct d as [|c d'].
    + unfold has_root_directory, chars. simpl native.
      destruct sp as [|a sp'].
      * rewrite Hl. simpl. rewrite app_nil_r, Hn.
        destruct (list_ascii_of_string s) as [|c0 l0] eqn:E0; [reflexivity|].
        destruct (is_dir_sep c0) eqn:Hc0; [|reflexivity].
        exfalso.
        assert (Hin : In c0 n).
        { simpl in ER. rewrite app_nil_r in ER. rewrite <- ER.
          apply -> in_rev. unfold chars. simpl native. rewrite E0. now left. }
        rewrite forallb_forall in Hn. specialize (Hn c0 Hin).
        unfold nonsep in Hn. rewrite Hc0 in Hn. discriminate Hn.
      * rewrite Hl. rewrite !forallb_app. simpl in Hs |- *.
        apply andb_true_iff in Hs. destruct Hs as [Ha Hs'].
        unfold nonsep at 2. rewrite Ha. simpl. rewrite andb_false_r.
        assert (Hhead : exists c0 l0, list_ascii_of_string s = c0 :: l0
                                      /\ is_dir_sep c0 = true).
        { assert (E : list_ascii_of_string s = rev (n ++ (a :: sp') ++ [])).
          { rewrite <- ER. unfold chars. simpl native.
            now rewrite rev_involutive. }
          rewrite app_nil_r, rev_app_distr in E.
          destruct (rev_nonempty a sp') as (c0 & r & Er).
          assert (Hall : forallb is_dir_sep (rev (a :: sp')) = true).
          { rewrite forallb_rev. simpl. now rewrite Ha, Hs'. }
          rewrite Er in E, Hall. simpl in Hall.
          apply andb_true_iff in Hall. destruct Hall as [Hc0 _].
          exists c0, (r ++ rev n)%list. now split. }
        destruct Hhead as (c0 & l0 & -> & Hc0). now rewrite Hc0.
    + rewrite of_chars_rev_nonempty.
      destruct sp as [|a sp']; [now specialize (Hsd eq_refl)|].
      rewrite Hl. rewrite !forallb_app. simpl in Hs |- *.
      apply andb_true_iff in Hs. destruct Hs as [Ha _].
      unfold nonsep at 2. rewrite Ha. simpl. now rewrite andb_false_r.
  - unfold has_relative_path, chars in Hrel. simpl native in Hrel.
    fold nonsep in Hrel. unfold empty. simpl native.
    destruct s as [|c s']; [reflexivity|].
    simpl in Hrel |- *. apply orb_false_iff in Hrel.
    destruct Hrel as [Hc _]. now rewrite Hc.
Qed.

(** The parent has a root directory exactly when the pathname has. *)
Lemma parent_keeps_root (s : string) :
  has_root_directory (parent_path (Path s)) = has_root_directory (Path s).
Proof.
  destruct (parent_path_decompose (Path s)) as (n & sp & d & ER & _ & _ & _ & _ & Ed).
  unfold parent_path. rewrite Ed.
  destruct (has_relative_path (Path s)); simpl negb; cbv iota; [|reflexivity].
  destruct d as [|c d'].
  - now destruct (has_root_directory (Path s)).
  - assert (E : chars (Path s) = (rev (c :: d') ++ rev sp ++ rev n)%list).
    { rewrite <- (rev_involutive (chars (Path s))), ER.
      now rewrite !rev_app_distr, app_assoc. }
    destruct (rev_nonempty c d') as (a & r & Er).
    unfold has_root_directory. rewrite E.
    unfold chars, of_chars. cbn [native].
    rewrite list_ascii_of_string_of_list_ascii.
    now rewrite Er.
Qed.

Lemma prefix_refl (s : string) : prefix s s = true.
Proof.
  induction s as [|c s IH]; simpl; [reflexivity|].
  destruct (ascii_dec c c); [exact IH | congruence].
Qed.

(** The parent is an initial part of the pathname, as written. *)
Lemma parent_is_prefix (s : string) :
  prefix (native (parent_path (Path s))) s = true.
Proof.
  destruct (parent_path_decompose (Path s)) as (n & sp & d & ER & _ & _ & _ & _ & Ed).
  unfold parent_path. rewrite Ed.
  destruct (has_relative_path (Path s)); simpl negb; cbv iota;
    [|apply prefix_refl].
  destruct d as [|c d'].
  - unfold has_root_directory, chars. simpl native.
    destruct s as [|c0 s']; [reflexivity|]. simpl.
    destruct (is_dir_sep c0) eqn:Hc0; [|reflexivity].
    apply Ascii.eqb_eq in Hc0. subst c0. exact (prefix_app "/" s').
  - assert (E : s = string_of_list_ascii (rev (c :: d'))
                    ++ string_of_list_ascii (rev sp ++ rev n)).
    { rewrite <- string_of_chars_app.
      rewrite <- (string_of_list_ascii_of_string s) at 1. f_equal.
      change (list_ascii_of_string s) with (chars (Path s)).
      rewrite <- (rev_involutive (chars (Path s))), ER.
      now rewrite !rev_app_distr, app_assoc. }
    unfold of_chars. cbn [native]. rewrite E. apply prefix_app.
Qed.

End ParentShape.

(** ** The loop, query by query *)

Section LoopFacts.

Variable fs : string -> option bool.

(** Paths answered [false] are queried and passed. *)
Lemma probes_app_false (before rest : list string) (icon_path : string) :
  Forall (fun q => fs q = Some false) before ->
  probes fs (before ++ rest)
  = map (fun q => ExistsQuery q (Some false)) before ++ probes fs rest
  /\ loop_result fs (before ++ rest) icon_path = loop_result fs rest icon_path.
Proof.
  intros Hb. induction Hb as [|q before Hq _ [IH1 IH2]]; simpl.
  - now split.
  - rewrite Hq. now rewrite IH1, IH2.
Qed.

Lemma queries_observed (before : list string) (answer : option bool) :
  queried_paths (map (fun q => ExistsQuery q answer) before) = before
  /\ diagnostics (map (fun q => ExistsQuery q answer) before) = []
  /\ helper_calls (map (fun q => ExistsQuery q answer) before) = [].
Proof.
  induction before as [|q before (IH1 & IH2 & IH3)]; simpl; [now repeat split|].
  now rewrite IH1, IH2, IH3.
Qed.

Lemma probes_of_queried (l : list string) :
  probes fs l
  = map (fun q => ExistsQuery q (fs q)) (queried_paths (probes fs l)).
Proof.
  induction l as [|p rest IH]; [reflexivity|].
  rewrite queried_probes_cons. simpl.
  destruct (fs p) as [[|]|]; simpl; [reflexivity | now rewrite <- IH | reflexivity].
Qed.

Lemma after_loop_in_order (r : Result string) :
  after_loop r
  = map (fun d => LogMessage (fst d) (snd d)) (diagnostics (after_loop r))
    ++ map HelperCall (helper_calls (after_loop r)).
Proof.
  destruct r as [icon_path|e]; [|reflexivity].
  simpl. unfold report. now destruct (string_empty icon_path).
Qed.

(** All queries but the last are answered [false], and the answer of the
    last decides how the loop ends. *)
Lemma probes_break (l : list string) (icon_path : string) :
  l <> [] ->
  queried_paths (probes fs l) <> []
  /\ Forall (fun q => fs q = Some false) (removelast (queried_paths (probes fs l)))
  /\ loop_result fs l icon_path
     = match fs (last (queried_paths (probes fs l)) ""%string) with
       | Some true => Returned (last (queried_paths (probes fs l)) ""%string)
       | Some false => Returned icon_path
       | None => Thrown (filesystem_error (last (queried_paths (probes fs l)) ""%string))
       end.
Proof.
  induction l as [|p rest IH]; [congruence|]. intros _.
  rewrite queried_probes_cons.
  split; [discriminate|].
  cbn [loop_result]. destruct (fs p) as [[|]|] eqn:Hp.
  - cbn [removelast last]. rewrite Hp. split; [constructor | reflexivity].
  - destruct rest as [|p' rest'].
    + cbn. rewrite Hp. split; [constructor | reflexivity].
    + destruct IH as (Hne & Hall & Hlast); [discriminate|].
      destruct (queried_paths (probes fs (p' :: rest'))) as [|a qs] eqn:E;
        [congruence|].
      split.
      * change (removelast (p :: a :: qs)) with (p :: removelast (a :: qs)).
        now constructor.
      * change (last (p :: a :: qs) ""%string) with (last (a :: qs) ""%string).
        exact Hlast.
  - cbn [removelast last]. rewrite Hp. split; [constructor | reflexivity].
Qed.

End LoopFacts.

(** A filesystem that agrees on the queried paths gives the same queries
    and the same end of the loop. *)
Lemma probes_agree (fs fs' : string -> option bool) (l : list string) :
  (forall p, In p (queried_paths (probes fs l)) -> fs' p = fs p) ->
  probes fs' l = probes fs l
  /\ forall icon_path, loop_result fs' l icon_path = loop_result fs l icon_path.
Proof.
  induction l as [|p rest IH]; [now split|].
  rewrite queried_probes_cons. intros H. simpl.
  rewrite (H p (or_introl eq_refl)).
  destruct (fs p) as [[|]|] eqn:Hp; [now split | | now split].
  destruct IH as [IH1 IH2].
  - intros q Hq. apply H. now right.
  - split; [now rewrite IH1 | exact IH2].
Qed.

(** When the only change is that more paths are found, the loop stops no
    later, and where it returned a value it still does. *)
Lemma probes_more_found (fs fs' : string -> option bool) (l : list string) :
  (forall p, fs' p = fs p \/ fs' p = Some true) ->
  is_prefix (queried_paths (probes fs' l)) (queried_paths (probes fs l)).
Proof.
  intros H. induction l as [|p rest [tl IH]]; [now exists []|].
  rewrite !queried_probes_cons.
  destruct (H p) as [E | E]; rewrite E.
  - destruct (fs p) as [[|]|].
    + now exists [].
    + exists tl. simpl. now rewrite IH.
    + now exists [].
  - now exists (match fs p with
                | Some false => queried_paths (probes fs rest)
                | _ => []
                end).
Qed.

Lemma loop_more_found (fs fs' : string -> option bool) (l : list string)
      (icon_path r : string) :
  (forall p, fs' p = fs p \/ fs' p = Some true) ->
  loop_result fs l icon_path = Returned r ->
  exists r', loop_result fs' l icon_path = Returned r'
             /\ (r' = r \/ In r' l).
Proof.
  intros H. induction l as [|p rest IH]; simpl.
  - intros [= <-]. exists icon_path. auto.
  - destruct (H p) as [E | E]; rewrite E.
    + destruct (fs p) as [[|]|].
      * intros [= <-]. exists p. auto.
      * intros Hr. destruct (IH Hr) as (r' & Hr' & [Hrr | Hin]);
          exists r'; auto.
      * discriminate.
    + intros _. exists p. auto.
Qed.
Lemma string_length_app (a b : string) :
  String.length (a ++ b) = String.length a + String.length b.
Proof.
  induction a as [|c a IH]; simpl; [reflexivity|]. now rewrite IH.
Qed.

Lemma dir_prefix_of_nonempty (d : Fs.path) :
  Fs.empty d = false -> exists rest, dir_prefix d = (Fs.native d ++ rest)%string
                                     /\ string_empty (Fs.native d) = false.
Proof.
  intros H. unfold dir_prefix. rewrite H.
  assert (Hne : string_empty (Fs.native d) = false).
  { unfold Fs.empty in H. now destruct (Fs.native d). }
  destruct (Fs.has_filename d).
  - now exists "/"%string.
  - exists ""%string. split; [|exact Hne].
    clear. induction (Fs.native d) as [|c s IH]; simpl; [reflexivity|].
    now rewrite <- IH.
Qed.

(** ** Which directory a hint names *)

(** X1: for a hint directory, separators, name, where the directory ends
    in a filename and the name (which may be empty) has no separator, the
    parent directory is the directory as written, and the candidates are
    directory/icon.png and directory/resources/icon.png before the two
    fallbacks, whatever the name and however many separators. *)
Theorem hint_in_directory (d seps name : string) :
  Fs.has_filename (Fs.Path d) = true ->
  all_separators seps = true ->
  string_empty seps = false ->
  no_separator name = true ->
  parentDir (d ++ seps ++ name) = Fs.Path d
  /\ possible_paths (d ++ seps ++ name)
     = [ (d ++ "/icon.png")%string;
         (d ++ "/resources/icon.png")%string;
         "resources/icon.png"%string;
         "icon.png"%string ].
Proof.
  intros Hd Hs Hne Hn.
  assert (E : parentDir (d ++ seps ++ name) = Fs.Path d)
    by now apply parent_of_directory_hint.
  split; [exact E|].
  destruct (candidates_as_strings (d ++ seps ++ name)) as [-> _].
  rewrite E. unfold dir_prefix.
  rewrite (has_filename_nonempty d Hd), Hd. cbn [Fs.native].
  now rewrite !string_app_assoc.
Qed.

Lemma hint_in_directory_witness :
  Fs.has_filename (Fs.Path "../build/bin") = true
  /\ possible_paths ("../build/bin" ++ "//" ++ "simulator.exe")
     = [ "../build/bin/icon.png"; "../build/bin/resources/icon.png";
         "resources/icon.png"; "icon.png" ]%string.
Proof.
  split; [reflexivity|].
  apply (hint_in_directory "../build/bin" "//" "simulator.exe"); reflexivity.
Defined.

(** X2: for a hint that is separators followed by a non-empty name without
    separator, the parent directory is the root directory "/" (one
    separator, however many the hint has), and the first two candidates
    are /icon.png and /resources/icon.png. *)
Theorem hint_in_root (seps name : string) :
  all_separators seps = true ->
  string_empty seps = false ->
  no_separator name = true ->
  string_empty name = false ->
  parentDir (seps ++ name) = Fs.Path "/"
  /\ possible_paths (seps ++ name)
     = [ "/icon.png"; "/resources/icon.png"; "resources/icon.png"; "icon.png" ]%string.
Proof.
  intros Hs Hse Hn Hne.
  assert (E : parentDir (seps ++ name) = Fs.Path "/")
    by now apply parent_of_root_hint.
  split; [exact E|].
  destruct (candidates_as_strings (seps ++ name)) as [-> _].
  now rewrite E.
Qed.

Lemma hint_in_root_witness :
  all_separators "//" = true
  /\ possible_paths ("//" ++ "myprog")
     = [ "/icon.png"; "/resources/icon.png"; "resources/icon.png"; "icon.png" ]%string.
Proof.
  split; [reflexivity|].
  apply (hint_in_root "//" "myprog"); reflexivity.
Defined.

(** X3: the parent directory is empty exactly when the hint has no
    separator; and exactly then the candidate list is icon.png,
    resources/icon.png, resources/icon.png, icon.png. *)
Theorem bare_hint_iff (argv0 : string) :
  Fs.empty (parentDir argv0) = no_separator argv0
  /\ (no_separator argv0 = true
      <-> possible_paths argv0
          = ["icon.png"; "resources/icon.png"; "resources/icon.png"; "icon.png"]%string).
Proof.
  assert (E : Fs.empty (parentDir argv0) = no_separator argv0)
    by apply parent_empty_no_separator.
  split; [exact E|].
  rewrite <- E. destruct (candidates_as_strings argv0) as [-> _].
  split.
  - intros He. unfold dir_prefix. now rewrite He.
  - intros [= H _].
    destruct (Fs.empty (parentDir argv0)) eqn:He; [reflexivity|].
    destruct (dir_prefix_of_nonempty _ He) as (rest & Hd & Hne).
    apply (f_equal String.length) in H.
    rewrite Hd, !string_length_app in H.
    destruct (Fs.native (parentDir argv0)); [discriminate Hne|].
    simpl in H. lia.
Qed.

(** X4: the first two candidates are absolute exactly when the hint is,
    and the two fallbacks never are: with a relative hint all four
    candidates are resolved against the working directory. *)
Theorem candidates_absolute_as_hint (argv0 : string) :
  map (fun p => Fs.is_absolute (Fs.Path p)) (possible_paths argv0)
  = [ Fs.is_absolute (Fs.Path argv0); Fs.is_absolute (Fs.Path argv0);
      false; false ].
Proof.
  destruct (candidates_as_strings argv0) as [-> _].
  assert (H : forall name,
             Fs.is_absolute (Fs.Path name) = false ->
             Fs.is_absolute (Fs.Path (dir_prefix (parentDir argv0) ++ name))
             = Fs.is_absolute (Fs.Path argv0)).
  { intros name Hname. unfold Fs.is_absolute.
    rewrite <- (parent_keeps_root argv0). fold (parentDir argv0).
    destruct (Fs.empty (parentDir argv0)) eqn:He.
    - unfold dir_prefix. rewrite He. cbn [String.append].
      unfold Fs.is_absolute in Hname. rewrite Hname.
      unfold Fs.empty in He. unfold Fs.has_root_directory, Fs.chars.
      now destruct (Fs.native (parentDir argv0)).
    - destruct (dir_prefix_of_nonempty _ He) as (rest & -> & Hne).
      unfold Fs.has_root_directory, Fs.chars. cbn [Fs.native].
      now destruct (Fs.native (parentDir argv0)). }
  simpl map. now rewrite !H.
Qed.

(** X5: the parent directory is an initial part of the hint as written (it
    is not made absolute or normalised), and the first two candidates
    start with it. *)
Theorem parent_directory_is_prefix (argv0 : string) :
  prefix (Fs.native (parentDir argv0)) argv0 = true
  /\ Forall (fun p => prefix (Fs.native (parentDir argv0)) p = true)
            (firstn 2 (possible_paths argv0)).
Proof.
  split; [apply parent_is_prefix|].
  destruct (candidates_as_strings argv0) as [-> _]. cbn [firstn].
  assert (H : forall name,
             prefix (Fs.native (parentDir argv0))
                    (dir_prefix (parentDir argv0) ++ name) = true).
  { intros name. destruct (Fs.empty (parentDir argv0)) eqn:He.
    - unfold Fs.empty in He.
      destruct (Fs.native (parentDir argv0)); [|discriminate He].
      now destruct (dir_prefix (parentDir argv0) ++ name)%string.
    - destruct (dir_prefix_of_nonempty _ He) as (rest & -> & _).
      rewrite string_app_assoc. apply prefix_app. }
  repeat constructor; apply H.
Qed.

(** ** What a call does, for every hint and filesystem *)

(** X6: first match wins at every position: if the candidate list is
    before, p, after, every query on before is answered [false] and the
    query on p is answered [true], the call queries before and p, logs p
    at INFO, calls [SetIconHelper] with p and returns; nothing in after is
    queried. *)
Theorem first_match_wins (fs : string -> option bool) (argv0 : string)
        (before after : list string) (p : string) :
  possible_paths argv0 = before ++ p :: after ->
  Forall (fun q => fs q = Some false) before ->
  fs p = Some true ->
  SetIcon_events fs argv0
  = map (fun q => ExistsQuery q (Some false)) before
    ++ [ ExistsQuery p (Some true);
         LogMessage INFO ("Using icon from: " ++ p);
         HelperCall p ]
  /\ SetIcon_result fs argv0 = Returned tt.
Proof.
  intros Hl Hb Hp.
  assert (Hne : string_empty p = false).
  { apply (candidates_nonempty argv0). rewrite Hl.
    apply in_or_app. right. now left. }
  destruct (probes_app_false fs before (p :: after) ""%string Hb) as [E1 E2].
  rewrite SetIcon_events_eq, SetIcon_result_eq, chosen_loop, Hl, E1, E2.
  simpl. rewrite Hp. simpl. unfold report. rewrite Hne.
  split; [|reflexivity]. now rewrite <- app_assoc.
Qed.

Lemma first_match_wins_witness :
  fs_of ["icon.png"%string] "icon.png"%string = Some true
  /\ SetIcon_events (fs_of ["icon.png"%string]) "/opt/app/bin/myprog"
     = [ ExistsQuery "/opt/app/bin/icon.png" (Some false);
         ExistsQuery "/opt/app/bin/resources/icon.png" (Some false);
         ExistsQuery "resources/icon.png" (Some false);
         ExistsQuery "icon.png" (Some true);
         LogMessage INFO "Using icon from: icon.png";
         HelperCall "icon.png" ].
Proof.
  split; [reflexivity|].
  apply (first_match_wins (fs_of ["icon.png"%string]) "/opt/app/bin/myprog"
           [ "/opt/app/bin/icon.png"; "/opt/app/bin/resources/icon.png";
             "resources/icon.png" ]%string
           [] "icon.png" eq_refl).
  - repeat constructor.
  - reflexivity.
Defined.

(** X7: conversely, a path [SetIconHelper] is called with is a first match:
    it stands in the candidate list after candidates that were all
    answered [false], and it exists. *)
Theorem helper_call_is_first_match (fs : string -> option bool) (argv0 p : string) :
  In p (helper_calls (SetIcon_events fs argv0)) ->
  exists before after,
    possible_paths argv0 = before ++ p :: after
    /\ Forall (fun q => fs q = Some false) before
    /\ fs p = Some true.
Proof.
  intros H.
  destruct (SetIcon_outcome fs argv0)
    as [(_ & Hc & _)
       | [(before & q & after & Hl & Hb & Hq & Hne & Hc & _)
         | (before & q & after & _ & _ & _ & Hc & _)]].
  - rewrite helper_calls_SetIcon, Hc in H. destruct H.
  - destruct (after_hit fs argv0 q Hc Hne) as [_ Hh]. rewrite Hh in H.
    destruct H as [<- | []]. now exists before, after.
  - rewrite helper_calls_SetIcon, Hc in H. destruct H.
Qed.

Lemma helper_call_is_first_match_witness :
  In "resources/icon.png"%string
     (helper_calls
        (SetIcon_events (fs_of ["resources/icon.png"; "icon.png"]%string)
           "/opt/app/bin/myprog"))
  /\ exists before after,
       possible_paths "/opt/app/bin/myprog"
       = before ++ "resources/icon.png"%string :: after
       /\ Forall (fun q => fs_of ["resources/icon.png"; "icon.png"]%string q
                           = Some false)
                 before
       /\ fs_of ["resources/icon.png"; "icon.png"]%string "resources/icon.png"
          = Some true.
Proof.
  assert (H : In "resources/icon.png"%string
                (helper_calls
                   (SetIcon_events (fs_of ["resources/icon.png"; "icon.png"]%string)
                      "/opt/app/bin/myprog"))).
  { simpl. now left. }
  split; [exact H|].
  exact (helper_call_is_first_match
           (fs_of ["resources/icon.png"; "icon.png"]%string)
           "/opt/app/bin/myprog" "resources/icon.png" H).
Defined.

(** X8: every call ends in one of three ways: it returns after one WARNING
    and no call of [SetIconHelper], when every candidate is answered
    [false]; or it returns after one INFO naming a candidate that exists
    and one call of [SetIconHelper] with that candidate; or it leaves by
    the [filesystem_error] of a candidate whose query has no answer, with
    no diagnostic and no call of [SetIconHelper].  So a call logs at most
    one diagnostic, and calls [SetIconHelper] at most once and never
    without the INFO line. *)
Theorem three_outcomes (fs : string -> option bool) (argv0 : string) :
  (SetIcon_result fs argv0 = Returned tt
   /\ diagnostics (SetIcon_events fs argv0) = [(WARNING, not_found_message)]
   /\ helper_calls (SetIcon_events fs argv0) = []
   /\ Forall (fun p => fs p = Some false) (possible_paths argv0))
  \/ (exists p,
        SetIcon_result fs argv0 = Returned tt
        /\ diagnostics (SetIcon_events fs argv0)
           = [(INFO, ("Using icon from: " ++ p)%string)]
        /\ helper_calls (SetIcon_events fs argv0) = [p]
        /\ In p (possible_paths argv0)
        /\ fs p = Some true)
  \/ (exists p,
        SetIcon_result fs argv0 = Thrown (filesystem_error p)
        /\ diagnostics (SetIcon_events fs argv0) = []
        /\ helper_calls (SetIcon_events fs argv0) = []
        /\ In p (possible_paths argv0)
        /\ fs p = None).
Proof.
  destruct (SetIcon_outcome fs argv0)
    as [(Hall & Hc & Hr & _)
       | [(before & q & after & Hl & _ & Hq & Hne & Hc & Hr & _)
         | (before & q & after & Hl & _ & Hq & Hc & Hr & _)]].
  - left. rewrite diagnostics_SetIcon, helper_calls_SetIcon, Hc.
    now repeat split.
  - right; left. exists q.
    destruct (after_hit fs argv0 q Hc Hne) as [Hd Hh].
    repeat split; try assumption.
    rewrite Hl. apply in_or_app. right. now left.
  - right; right. exists q.
    rewrite diagnostics_SetIcon, helper_calls_SetIcon, Hc.
    repeat split; try assumption.
    rewrite Hl. apply in_or_app. right. now left.
Qed.

(** X9: the events of a call come in this order: the queries, each with
    what the filesystem does on it; then the diagnostic; then the call of
    [SetIconHelper].  The INFO line is logged before the helper is called,
    and nothing is queried after a diagnostic. *)
Theorem events_in_order (fs : string -> option bool) (argv0 : string) :
  SetIcon_events fs argv0
  = map (fun q => ExistsQuery q (fs q)) (queried_paths (SetIcon_events fs argv0))
    ++ map (fun d => LogMessage (fst d) (snd d))
           (diagnostics (SetIcon_events fs argv0))
    ++ map HelperCall (helper_calls (SetIcon_events fs argv0)).
Proof.
  rewrite queried_SetIcon, diagnostics_SetIcon, helper_calls_SetIcon.
  rewrite <- probes_of_queried, <- after_loop_in_order.
  apply SetIcon_events_eq.
Qed.

(** X10: the loop stops at the first query that is not answered [false]:
    at least one path is queried, every query but the last is answered
    [false], [SetIconHelper] is called exactly when the last query is
    answered [true], with the path of that query, and the call leaves by
    an exception exactly when the last query has no answer. *)
Theorem loop_stops_at_first_hit (fs : string -> option bool) (argv0 : string) :
  1 <= length (queried_paths (SetIcon_events fs argv0))
  /\ Forall (fun q => fs q = Some false)
            (removelast (queried_paths (SetIcon_events fs argv0)))
  /\ helper_calls (SetIcon_events fs argv0)
     = match fs (last (queried_paths (SetIcon_events fs argv0)) ""%string) with
       | Some true => [last (queried_paths (SetIcon_events fs argv0)) ""%string]
       | _ => []
       end
  /\ SetIcon_result fs argv0
     = match fs (last (queried_paths (SetIcon_events fs argv0)) ""%string) with
       | None =>
           Thrown (filesystem_error
                     (last (queried_paths (SetIcon_events fs argv0)) ""%string))
       | _ => Returned tt
       end.
Proof.
  rewrite queried_SetIcon, helper_calls_SetIcon, SetIcon_result_eq, chosen_loop.
  destruct (probes_break fs (possible_paths argv0) ""%string)
    as (Hne & Hall & Hlast); [discriminate|].
  split; [|split; [exact Hall|]].
  - destruct (queried_paths (probes fs (possible_paths argv0)));
      [congruence | simpl; lia].
  - rewrite Hlast.
    destruct (fs (last (queried_paths (probes fs (possible_paths argv0))) ""%string))
      as [[|]|] eqn:Hfs; cbn [after_loop result_after]; [|now split|now split].
    split; [|reflexivity].
    assert (Hin : In (last (queried_paths (probes fs (possible_paths argv0))) ""%string)
                     (possible_paths argv0)).
    { destruct (queried_probes_prefix fs (possible_paths argv0)) as [rest E].
      rewrite E at 2. apply in_or_app. left.
      rewrite (app_removelast_last ""%string Hne) at 2.
      apply in_or_app. right. now left. }
    rewrite helper_calls_report.
    now rewrite (candidates_nonempty argv0 _ Hin).
Qed.

(** X11: only the queried paths matter: a filesystem that agrees with
    [fs] on the paths a call queried under [fs] gives the same events and
    the same end.  What the filesystem does on candidates after the first
    hit, or anywhere else, does not change the call. *)
Theorem unqueried_paths_irrelevant (fs fs' : string -> option bool) (argv0 : string) :
  (forall p, In p (queried_paths (SetIcon_events fs argv0)) -> fs' p = fs p) ->
  SetIcon_events fs' argv0 = SetIcon_events fs argv0
  /\ SetIcon_result fs' argv0 = SetIcon_result fs argv0.
Proof.
  rewrite queried_SetIcon. intros H.
  destruct (probes_agree fs fs' (possible_paths argv0) H) as [E1 E2].
  now rewrite !SetIcon_events_eq, !SetIcon_result_eq, !chosen_loop, E1, E2.
Qed.

Lemma unqueried_paths_irrelevant_witness :
  (forall p,
     In p (queried_paths
             (SetIcon_events (fs_of ["/opt/app/bin/icon.png"%string])
                "/opt/app/bin/myprog")) ->
     fs_with_errors ["resources/icon.png"%string]
       ["/opt/app/bin/icon.png"; "icon.png"; "/etc/passwd"]%string p
     = fs_of ["/opt/app/bin/icon.png"%string] p)
  /\ SetIcon_events
       (fs_with_errors ["resources/icon.png"%string]
          ["/opt/app/bin/icon.png"; "icon.png"; "/etc/passwd"]%string)
       "/opt/app/bin/myprog"
     = SetIcon_events (fs_of ["/opt/app/bin/icon.png"%string]) "/opt/app/bin/myprog".
Proof.
  assert (H : forall p,
             In p (queried_paths
                     (SetIcon_events (fs_of ["/opt/app/bin/icon.png"%string])
                        "/opt/app/bin/myprog")) ->
             fs_with_errors ["resources/icon.png"%string]
               ["/opt/app/bin/icon.png"; "icon.png"; "/etc/passwd"]%string p
             = fs_of ["/opt/app/bin/icon.png"%string] p).
  { intros p [<- | []]. reflexivity. }
  split; [exact H|].
  apply (unqueried_paths_irrelevant _ _ "/opt/app/bin/myprog" H).
Defined.

(** X12: finding more never loses the icon: if [fs'] differs from [fs]
    only on paths that [fs'] answers [true], the paths queried under [fs']
    are an initial segment of those queried under [fs]; if the call
    returns under [fs] it returns under [fs'], and if [SetIconHelper] is
    called under [fs] it is called under [fs']. *)
Theorem more_files_earlier_hit (fs fs' : string -> option bool) (argv0 : string) :
  (forall p, fs' p = fs p \/ fs' p = Some true) ->
  is_prefix (queried_paths (SetIcon_events fs' argv0))
            (queried_paths (SetIcon_events fs argv0))
  /\ (SetIcon_result fs argv0 = Returned tt ->
      SetIcon_result fs' argv0 = Returned tt)
  /\ (helper_calls (SetIcon_events fs argv0) <> [] ->
      helper_calls (SetIcon_events fs' argv0) <> []).
Proof.
  intros H. split; [|split].
  - rewrite !queried_SetIcon. now apply probes_more_found.
  - rewrite !SetIcon_result_eq, !chosen_loop.
    destruct (loop_result fs (possible_paths argv0) ""%string) as [r|e] eqn:Hr;
      [|discriminate].
    destruct (loop_more_found fs fs' _ _ _ H Hr) as (r' & -> & _). reflexivity.
  - rewrite !helper_calls_SetIcon, !chosen_loop.
    destruct (loop_result fs (possible_paths argv0) ""%string) as [r|e] eqn:Hr;
      [|simpl; congruence].
    destruct (loop_more_found fs fs' _ _ _ H Hr) as (r' & -> & Hr').
    simpl. rewrite !helper_calls_report.
    destruct (string_empty r) eqn:Hne; [congruence|]. intros _.
    destruct Hr' as [-> | Hin].
    + rewrite Hne. discriminate.
    + rewrite (candidates_nonempty argv0 _ Hin). discriminate.
Qed.

Lemma more_files_earlier_hit_witness :
  (forall p, fs_of ["icon.png"; "/opt/app/bin/icon.png"]%string p
             = fs_of ["icon.png"%string] p
             \/ fs_of ["icon.png"; "/opt/app/bin/icon.png"]%string p = Some true)
  /\ is_prefix
       (queried_paths
          (SetIcon_events (fs_of ["icon.png"; "/opt/app/bin/icon.png"]%string)
             "/opt/app/bin/myprog"))
       (queried_paths
          (SetIcon_events (fs_of ["icon.png"%string]) "/opt/app/bin/myprog")).
Proof.
  assert (H : forall p, fs_of ["icon.png"; "/opt/app/bin/icon.png"]%string p
                        = fs_of ["icon.png"%string] p
                        \/ fs_of ["icon.png"; "/opt/app/bin/icon.png"]%string p
                           = Some true).
  { intros p. unfold fs_of. simpl.
    destruct (String.eqb p "icon.png"); [now left|].
    destruct (String.eqb p "/opt/app/bin/icon.png"); [now right | now left]. }
  split; [exact H|].
  apply (more_files_earlier_hit _ _ "/opt/app/bin/myprog" H).
Defined.

(** X13: an icon.png in the working directory is enough for every hint,
    as long as the query of every candidate is answered: the call then
    returns without the WARNING, having called [SetIconHelper] with a
    candidate that exists. *)
Theorem working_directory_icon_suffices (fs : string -> option bool) (argv0 : string) :
  fs "icon.png"%string = Some true ->
  (forall q, In q (possible_paths argv0) -> fs q <> None) ->
  exists p,
    helper_calls (SetIcon_events fs argv0) = [p]
    /\ diagnostics (SetIcon_events fs argv0)
       = [(INFO, ("Using icon from: " ++ p)%string)]
    /\ In p (possible_paths argv0)
    /\ fs p = Some true
    /\ SetIcon_result fs argv0 = Returned tt.
Proof.
  intros H Hans.
  destruct (SetIcon_outcome fs argv0)
    as [(Hall & _)
       | [(before & q & after & Hl & _ & Hq & Hne & Hc & Hr & _)
         | (before & q & after & Hl & _ & Hq & _)]].
  - rewrite Forall_forall in Hall.
    rewrite (Hall "icon.png"%string) in H; [discriminate H|].
    simpl. tauto.
  - exists q. destruct (after_hit fs argv0 q Hc Hne) as [Hd Hh].
    repeat split; try assumption.
    rewrite Hl. apply in_or_app. right. now left.
  - exfalso. apply (Hans q); [|exact Hq].
    rewrite Hl. apply in_or_app. right. now left.
Qed.

Lemma working_directory_icon_suffices_witness :
  fs_of ["icon.png"%string] "icon.png"%string = Some true
  /\ exists p,
       helper_calls (SetIcon_events (fs_of ["icon.png"%string]) "/opt/app/bin/myprog")
       = [p]
       /\ diagnostics (SetIcon_events (fs_of ["icon.png"%string]) "/opt/app/bin/myprog")
          = [(INFO, ("Using icon from: " ++ p)%string)]
       /\ In p (possible_paths "/opt/app/bin/myprog")
       /\ fs_of ["icon.png"%string] p = Some true
       /\ SetIcon_result (fs_of ["icon.png"%string]) "/opt/app/bin/myprog"
          = Returned tt.
Proof.
  split; [reflexivity|].
  apply (working_directory_icon_suffices (fs_of ["icon.png"%string])
           "/opt/app/bin/myprog" eq_refl).
  intros q _. discriminate.
Defined.

(** X14: a query without answer ends the call: if the candidate list is
    before, p, after, every query on before is answered [false] and the
    query on p throws, the call leaves by the [filesystem_error] of p
    after the queries on before and p, with no diagnostic and no call of
    [SetIconHelper]; nothing in after is queried, whatever exists there. *)
Theorem query_error_leaves (fs : string -> option bool) (argv0 : string)
        (before after : list string) (p : string) :
  possible_paths argv0 = before ++ p :: after ->
  Forall (fun q => fs q = Some false) before ->
  fs p = None ->
  SetIcon_result fs argv0 = Thrown (filesystem_error p)
  /\ SetIcon_events fs argv0
     = map (fun q => ExistsQuery q (Some false)) before ++ [ExistsQuery p None]
  /\ diagnostics (SetIcon_events fs argv0) = []
  /\ helper_calls (SetIcon_events fs argv0) = [].
Proof.
  intros Hl Hb Hp.
  destruct (probes_app_false fs before (p :: after) ""%string Hb) as [E1 E2].
  assert (Hc : chosen fs argv0 = Thrown (filesystem_error p)).
  { rewrite chosen_loop, Hl, E2. simpl. now rewrite Hp. }
  rewrite diagnostics_SetIcon, helper_calls_SetIcon.
  rewrite SetIcon_result_eq, SetIcon_events_eq, Hc, Hl, E1.
  simpl. rewrite Hp, app_nil_r. now repeat split.
Qed.

Lemma query_error_leaves_witness :
  fs_with_errors ["secret/resources/icon.png"%string] ["icon.png"%string]
    "secret/resources/icon.png"%string
  = None
  /\ SetIcon_result
       (fs_with_errors ["secret/resources/icon.png"%string] ["icon.png"%string])
       "secret/prog"
     = Thrown (filesystem_error "secret/resources/icon.png")
  /\ helper_calls
       (SetIcon_events
          (fs_with_errors ["secret/resources/icon.png"%string] ["icon.png"%string])
          "secret/prog")
     = [].
Proof.
  split; [reflexivity|].
  destruct (query_error_leaves
              (fs_with_errors ["secret/resources/icon.png"%string] ["icon.png"%string])
              "secret/prog" ["secret/icon.png"%string]
              ["resources/icon.png"; "icon.png"]%string
              "secret/resources/icon.png" eq_refl)
    as (Hr & _ & _ & Hh).
  - repeat constructor.
  - reflexivity.
  - split; [exact Hr | exact Hh].
Defined.
